(** * Pyomo-NB, Chapter 1: the Euclidean gcd oracle and its differential test

    Shallow embedding of the two self-contained Python functions of
    [Chapter_1/1_Greatest_common_divisor.ipynb]:

    - [gcd(a, b, *args, **kwargs)], the reference implementation (a [while]
      loop over the pair [(a, b)]), which returns the dictionary
      [{'gcd': a}];
    - [test_gcd_function(a, b, gcd_function, solver)], the body of the
      property-based test which compares the reference value with the value a
      candidate function reports.

    Python integers are unbounded, so they are modelled by [Z]; Python's [%]
    takes the sign of the divisor, as [Z.modulo] does.  Dictionaries with
    string keys are [gmap string _]. *)

From Stdlib Require Import ZArith Znumtheory Lia.
From stdpp Require Import base option gmap strings.
From Equations Require Import Equations.

Local Open Scope Z_scope.

(** ** Python values *)

Module Py.

(** The scalar values which occur in the dictionaries of the notebook.  A
    finite binary float is kept exactly, as [m * 2^e]; members of an
    enumeration (such as [SolverStatus.ok]) by class and member name. *)
Inductive pyval : Type :=
| PyInt (z : Z)
| PyFloat (m e : Z)
| PyStr (s : string)
| PyNone
| PyEnum (cls member : string).

#[export] Instance pyval_eq_dec : EqDecision pyval.
Proof. solve_decision. Defined.

(** An object returned by a call: a scalar, or a dictionary of scalars. *)
Inductive pyobj : Type :=
| PyScalar (v : pyval)
| PyDict (d : gmap string pyval).

(** One piece of an f-string: literal text, or an interpolated value. *)
Inductive fpart : Type :=
| Lit (s : string)
| Fmt (v : pyval).

Inductive exn : Type :=
| KeyError (key : string)
| TypeError
| AssertionError (msg : list fpart)
| OtherError (cls : string).

(** Outcome of evaluating a Python expression or function body. *)
Inductive result (A : Type) : Type :=
| Return (x : A)
| Raise (e : exn).
Arguments Return {A} x.
Arguments Raise {A} e.

(** Sequencing: an exception raised by the first computation propagates. *)
#[export] Instance result_ret : MRet result := fun A x => Return x.
#[export] Instance result_bind : MBind result := fun A B k r =>
  match r with
  | Return x => k x
  | Raise e => Raise e
  end.

(** [m1 * 2^e1 = m2 * 2^e2], decided over the integers. *)
Definition dyadic_eqb (m1 e1 m2 e2 : Z) : bool :=
  let e := Z.min e1 e2 in
  (m1 * 2 ^ (e1 - e)) =? (m2 * 2 ^ (e2 - e)).

(** Python's [==] on these values: numbers compare by exact numeric value
    whether [int] or [float]; values of unrelated types are unequal. *)
Definition py_eq (x y : pyval) : bool :=
  match x, y with
  | PyInt a, PyInt b => a =? b
  | PyInt a, PyFloat m e => dyadic_eqb a 0 m e
  | PyFloat m e, PyInt b => dyadic_eqb m e b 0
  | PyFloat m1 e1, PyFloat m2 e2 => dyadic_eqb m1 e1 m2 e2
  | PyStr s, PyStr t => bool_decide (s = t)
  | PyNone, PyNone => true
  | PyEnum c1 m1, PyEnum c2 m2 => bool_decide (c1 = c2) && bool_decide (m1 = m2)
  | _, _ => false
  end.

(** The subscription [obj[key]] with a string key: a dictionary is looked
    up, and none of the scalars can be subscripted with a string. *)
Definition subscript (obj : pyobj) (key : string) : result pyval :=
  match obj with
  | PyDict d =>
      match d !! key with
      | Some v => Return v
      | None => Raise (KeyError key)
      end
  | PyScalar _ => Raise TypeError
  end.

End Py.

Import Py.

(** ** The oracle: [gcd] *)

(** The loop of [gcd]:
<<
    while b:
        a, b = b, a % b
    return a
>>
    as a function of the values of [a] and [b] on entry.  [abs b] decreases
    with each iteration, for integers of either sign. *)
Equations? gcd_while (a b : Z) : Z by wf (Z.abs_nat b) lt :=
  gcd_while a b with Z.eq_dec b 0 := {
    | left _ => a
    | right _ => gcd_while b (a mod b) }.
Proof.
  destruct (Z_lt_ge_dec 0 b).
  - pose proof (Z.mod_pos_bound a b ltac:(lia)). lia.
  - pose proof (Z.mod_neg_bound a b ltac:(lia)). lia.
Qed.

(** [def gcd(a, b, *args, **kwargs)]: the extra positional and keyword
    arguments are accepted and never read. *)
Definition gcd (a b : Z) (args : list pyval) (kwargs : gmap string pyval) : pyobj :=
  PyDict {[ "gcd" := PyInt (gcd_while a b) ]}.


(** The same loop, iteration by iteration.  A state is the pair of the
    variables [(a, b)]; the body runs while [b] is truthy (non-zero). *)
Definition loop_state : Type := Z * Z.

Definition loop_guard (s : loop_state) : bool := negb (s.2 =? 0).

Definition loop_body (s : loop_state) : loop_state := (s.2, s.1 mod s.2).

(** One execution of the loop body, when the guard lets it run. *)
Definition loop_step (s s' : loop_state) : Prop :=
  loop_guard s = true ∧ s' = loop_body s.

(** The loop with a budget of [n] executions of its body: [Some r] when the
    loop is left with [return r] within the budget, [None] when the budget
    is used up first. *)
Fixpoint loop_run (n : nat) (s : loop_state) : option Z :=
  if loop_guard s then
    match n with
    | O => None
    | S n' => loop_run n' (loop_body s)
    end
  else Some s.1.

(** ** The verifier: [test_gcd_function] *)

(** A candidate is called as [gcd_function(a, b, solver=solver)]: two
    positional arguments and a dictionary of keyword arguments.  It returns
    an object or raises. *)
Definition candidate : Type := Z → Z → gmap string pyval → result pyobj.

Definition call_candidate (f : candidate) (a b : Z) (solver : pyval) : result pyobj :=
  f a b {[ "solver" := solver ]}.

(** Passing [gcd] itself as [gcd_function]: no extra positional arguments,
    the keyword arguments land in [**kwargs]. *)
Definition gcd_as_candidate : candidate :=
  λ a b kwargs, Return (gcd a b [] kwargs).

(** The message of the [assert], an f-string, as its sequence of pieces. *)
Definition failure_message (a b : Z) (gcd_mip termination_message : pyval) : list fpart :=
  [ Lit "Failed for gcd_ip0 with a="; Fmt (PyInt a);
    Lit ", b="; Fmt (PyInt b);
    Lit ", gcd_ip="; Fmt gcd_mip;
    Lit ", termination message: "; Fmt termination_message ].

(** The body of [test_gcd_function] for one pair [(a, b)] drawn by the test
    driver.  The message of [assert cond, msg] is evaluated only when [cond]
    is false. *)
Definition test_gcd_function (a b : Z) (gcd_function : candidate) (solver : pyval)
  : result unit :=
  gcd_standard ← subscript (gcd a b [] ∅) "gcd";
  gcd_mip_result ← call_candidate gcd_function a b solver;
  gcd_mip ← subscript gcd_mip_result "gcd";
  if py_eq gcd_standard gcd_mip then Return ()
  else
    termination_message ← subscript gcd_mip_result "termination_message";
    Raise (AssertionError (failure_message a b gcd_mip termination_message)).

(** The result which the notebook records for [gcd_ip1(2, 2, solver='cbc')],
    the falsifying example reported for
    [test_gcd_function(gcd_function=gcd_ip1, solver='cbc')]. *)
Definition gcd_ip1_2_2 : gmap string pyval :=
  {[ "a" := PyInt 2;
     "b" := PyInt 2;
     "A" := PyFloat (-12345679000) 0;
     "B" := PyFloat 12345679000 0;
     "gcd" := PyFloat 0 0;
     "time" := PyFloat 698905 (-22);
     "Status" := PyEnum "SolverStatus" "ok";
     "Termination Condition" := PyEnum "TerminationCondition" "optimal";
     "Termination Message" :=
       PyStr "Model was solved to optimality (subject to tolerances), and an optimal solution is available.";
     "Optimal Value (z)" := PyFloat 0 0 ]}.

Definition recorded_gcd_ip1 : candidate :=
  λ a b kwargs, Return (PyDict gcd_ip1_2_2).

(** A candidate whose solve ends infeasible and which reports zero as its
    gcd, with the status under the keys the candidates of the notebook use
    and the message under the key the verifier reads. *)
Definition infeasible_result : gmap string pyval :=
  {[ "a" := PyInt 2;
     "b" := PyInt 2;
     "gcd" := PyFloat 0 0;
     "Status" := PyEnum "SolverStatus" "warning";
     "Termination Condition" := PyEnum "TerminationCondition" "infeasible";
     "termination_message" := PyStr "infeasible" ]}.

Definition infeasible_candidate : candidate :=
  λ a b kwargs, Return (PyDict infeasible_result).

(** A candidate which raises, as a solver interface does when no solution
    can be loaded. *)
Definition raising_candidate : candidate :=
  λ a b kwargs, Raise (OtherError "ValueError").

(** ** Vocabulary of the properties *)

(** A bare positive integer as the returned object. *)
Definition returns_positive_int (o : pyobj) : Prop :=
  ∃ g : Z, o = PyScalar (PyInt g) ∧ 0 < g.

(** What a result dictionary tells about the solve, under the keys which
    [gcd_ip0], [gcd_ip1] and [gcd_ip2] fill in from [result.solver]: the
    status [error], or the termination condition [infeasible] or
    [unbounded]. *)
Definition reports_failed_solve (d : gmap string pyval) : bool :=
  bool_decide (d !! "Status" = Some (PyEnum "SolverStatus" "error"))
  || bool_decide (d !! "Termination Condition"
                  = Some (PyEnum "TerminationCondition" "infeasible"))
  || bool_decide (d !! "Termination Condition"
                  = Some (PyEnum "TerminationCondition" "unbounded")).

(** The call of the candidate has not produced a definite gcd value: it
    raised, or returned an object without a ['gcd'] entry, or a dictionary
    which reports a failed solve. *)
Definition no_definite_gcd (r : result pyobj) : Prop :=
  match r with
  | Raise _ => True
  | Return (PyScalar _) => True
  | Return (PyDict d) => d !! "gcd" = None ∨ reports_failed_solve d = true
  end.

(** The failure of the comparison itself. *)
Definition is_mismatch (e : exn) : Prop := ∃ msg, e = AssertionError msg.

(** A candidate failure is reported, and as something else than a
    mismatch. *)
Definition failure_reported_separately
    (a b : Z) (gcd_function : candidate) (solver : pyval) : Prop :=
  no_definite_gcd (call_candidate gcd_function a b solver) →
  ∃ e, test_gcd_function a b gcd_function solver = Raise e ∧ ¬ is_mismatch e.

(** Evaluate the sequencing and the subscriptions which are already
    determined, and nothing else. *)
Ltac run_test := cbn [mbind result_bind subscript].

(** ** The integer programmes built by [gcd_ip0], [gcd_ip1] and [gcd_ip2]

    Each of the three functions builds a [pyo.ConcreteModel] from [a] and
    [b] and hands it to a solver.  The model is data: variables with a
    domain and optional bounds, one objective, one constraint.  All the
    variables are integer, so a solution gives an integer to each name. *)

Module pyo.

Inductive domain : Type :=
| PositiveIntegers
| Integers.

(** [pyo.Var(domain=d, bounds=(lo, hi))]; [bounds] may be left out. *)
Record Var : Type := mkVar { var_domain : domain; var_bounds : option (Z * Z) }.

(** Expressions over the variables [model.x] and the numbers [a], [b]. *)
Inductive expr : Type :=
| Ref (x : string)
| Num (z : Z)
| Add (e1 e2 : expr)
| Mul (e1 e2 : expr).

(** [pyo.Constraint(expr=...)]: an equality [lhs == rhs], or the triple
    [(lo, body, hi)] for [lo <= body <= hi]. *)
Inductive relation : Type :=
| Equality (lhs rhs : expr)
| Ranged (lo : Z) (body : expr) (hi : Z).

Inductive sense : Type :=
| minimize
| maximize.

Record ConcreteModel : Type := mkModel {
  variables : list (string * Var);
  objective : expr * sense;
  constraints : list (string * relation) }.

Definition solution : Type := string → Z.

Fixpoint value (σ : solution) (e : expr) : Z :=
  match e with
  | Ref x => σ x
  | Num z => z
  | Add e1 e2 => value σ e1 + value σ e2
  | Mul e1 e2 => value σ e1 * value σ e2
  end.

Definition in_domain (d : domain) (z : Z) : bool :=
  match d with
  | PositiveIntegers => 1 <=? z
  | Integers => true
  end.

Definition in_bounds (bd : option (Z * Z)) (z : Z) : bool :=
  match bd with
  | Some (lo, hi) => (lo <=? z) && (z <=? hi)
  | None => true
  end.

Definition admits (σ : solution) (xv : string * Var) : bool :=
  in_domain (var_domain xv.2) (σ xv.1) && in_bounds (var_bounds xv.2) (σ xv.1).

Definition holds (σ : solution) (r : relation) : bool :=
  match r with
  | Equality lhs rhs => value σ lhs =? value σ rhs
  | Ranged lo body hi => (lo <=? value σ body) && (value σ body <=? hi)
  end.

(** [σ] respects every domain, every bound and every constraint. *)
Definition feasible (m : ConcreteModel) (σ : solution) : bool :=
  forallb (admits σ) (variables m) && forallb (λ c, holds σ c.2) (constraints m).

Definition objective_value (m : ConcreteModel) (σ : solution) : Z :=
  value σ (objective m).1.

(** [x] is at least as good as [y] for the sense of the objective. *)
Definition no_worse (s : sense) (x y : Z) : Prop :=
  match s with
  | minimize => x <= y
  | maximize => y <= x
  end.

Definition optimal (m : ConcreteModel) (σ : solution) : Prop :=
  feasible m σ = true ∧
  ∀ σ' : solution, feasible m σ' = true →
    no_worse (objective m).2 (objective_value m σ) (objective_value m σ').

End pyo.

(** The model of [gcd_ip0]:
<<
    model.A = pyo.Var(domain=pyo.PositiveIntegers, bounds=(1, a))
    model.B = pyo.Var(domain=pyo.PositiveIntegers, bounds=(1, b))
    model.objective = pyo.Objective(expr=model.A*b + model.B*a, sense=pyo.minimize)
    model.constraint = pyo.Constraint(expr= model.A*b == model.B*a)
>>
    The function reports [a/model.A] under ['gcd']. *)
Definition gcd_ip0_model (a b : Z) : pyo.ConcreteModel :=
  pyo.mkModel
    [ ("A", pyo.mkVar pyo.PositiveIntegers (Some (1, a)));
      ("B", pyo.mkVar pyo.PositiveIntegers (Some (1, b))) ]
    (pyo.Add (pyo.Mul (pyo.Ref "A") (pyo.Num b)) (pyo.Mul (pyo.Ref "B") (pyo.Num a)),
     pyo.minimize)
    [ ("constraint",
       pyo.Equality (pyo.Mul (pyo.Ref "A") (pyo.Num b))
                    (pyo.Mul (pyo.Ref "B") (pyo.Num a))) ].

(** The model of [gcd_ip1]:
<<
    model.A = pyo.Var(domain=pyo.Integers)
    model.B = pyo.Var(domain=pyo.Integers)
    model.C = pyo.Var(domain=pyo.PositiveIntegers)
    model.objective = pyo.Objective(expr=model.A*a + model.B*b, sense=pyo.minimize)
    model.constraint1 = pyo.Constraint(expr= (a*model.A + b*model.B) == model.C)
>>
    The function reports [model.A*a + model.B*b] under ['gcd']. *)
Definition gcd_ip1_model (a b : Z) : pyo.ConcreteModel :=
  pyo.mkModel
    [ ("A", pyo.mkVar pyo.Integers None);
      ("B", pyo.mkVar pyo.Integers None);
      ("C", pyo.mkVar pyo.PositiveIntegers None) ]
    (pyo.Add (pyo.Mul (pyo.Ref "A") (pyo.Num a)) (pyo.Mul (pyo.Ref "B") (pyo.Num b)),
     pyo.minimize)
    [ ("constraint1",
       pyo.Equality (pyo.Add (pyo.Mul (pyo.Num a) (pyo.Ref "A"))
                             (pyo.Mul (pyo.Num b) (pyo.Ref "B")))
                    (pyo.Ref "C")) ].

(** The model of [gcd_ip2]:
<<
    model.A = pyo.Var(domain=pyo.Integers, bounds=(-b, b))
    model.B = pyo.Var(domain=pyo.Integers, bounds=(-a, a))
    model.objective = pyo.Objective(expr=model.A*a + model.B*b, sense=pyo.minimize)
    model.constraint = pyo.Constraint(expr= (1, model.A*a + model.B*b, min(a, b)))
>>
    The function reports [model.A*a + model.B*b] under ['gcd']. *)
Definition gcd_ip2_model (a b : Z) : pyo.ConcreteModel :=
  pyo.mkModel
    [ ("A", pyo.mkVar pyo.Integers (Some (- b, b)));
      ("B", pyo.mkVar pyo.Integers (Some (- a, a))) ]
    (pyo.Add (pyo.Mul (pyo.Ref "A") (pyo.Num a)) (pyo.Mul (pyo.Ref "B") (pyo.Num b)),
     pyo.minimize)
    [ ("constraint",
       pyo.Ranged 1
         (pyo.Add (pyo.Mul (pyo.Ref "A") (pyo.Num a)) (pyo.Mul (pyo.Ref "B") (pyo.Num b)))
         (Z.min a b)) ].

(** A solution which gives [x] to [model.A], [y] to [model.B] and [z] to
    every other name. *)
Definition solution_of (x y z : Z) : pyo.solution :=
  λ name, if String.eqb name "A" then x else if String.eqb name "B" then y else z.

(** The values which the notebook records for [gcd_ip2(9, 27)]: [A = -26],
    [B = 9]. *)
Definition gcd_ip2_9_27 : pyo.solution := solution_of (-26) 9 0.

(** A result which differs from [infeasible_result] in its status entries
    only. *)
Definition optimal_zero_result : gmap string pyval :=
  {[ "a" := PyInt 2;
     "b" := PyInt 2;
     "gcd" := PyFloat 0 0;
     "Status" := PyEnum "SolverStatus" "ok";
     "Termination Condition" := PyEnum "TerminationCondition" "optimal";
     "termination_message" := PyStr "infeasible" ]}.

Definition optimal_zero_candidate : candidate :=
  λ a b kwargs, Return (PyDict optimal_zero_result).

(** The result which the notebook records for [gcd_ip2(9, 27, solver='cbc')]. *)
Definition gcd_ip2_9_27_result : gmap string pyval :=
  {[ "a" := PyInt 9;
     "b" := PyInt 27;
     "A" := PyFloat (-26) 0;
     "B" := PyFloat 9 0;
     "gcd" := PyFloat 9 0;
     "time" := PyFloat 1132594043 (-32);
     "Status" := PyEnum "SolverStatus" "ok";
     "Termination Condition" := PyEnum "TerminationCondition" "optimal";
     "Termination Message" :=
       PyStr "Model was solved to optimality (subject to tolerances), and an optimal solution is available.";
     "Optimal Value (z)" := PyFloat 9 0 ]}.

Definition recorded_gcd_ip2 : candidate :=
  λ a b kwargs, Return (PyDict gcd_ip2_9_27_result).

(** * Properties *)

(** ** The loop computes the greatest common divisor *)

Section Loop.

Lemma gcd_while_zero (a : Z) : gcd_while a 0 = a.
Proof. simp gcd_while. reflexivity. Qed.

Lemma gcd_while_nonzero (a b : Z) : b ≠ 0 → gcd_while a b = gcd_while b (a mod b).
Proof.
  intros Hb. rewrite gcd_while_equation_1.
  destruct (Z.eq_dec b 0) as [Heq|Hne]; [contradiction|reflexivity].
Qed.

(** The loop invariant: the gcd of the two variables never changes. *)
Lemma loop_body_gcd (a b : Z) : Z.gcd b (a mod b) = Z.gcd a b.
Proof. rewrite Z.gcd_comm. apply Z.gcd_mod_l. Qed.

Lemma gcd_while_abs (a b : Z) : Z.abs (gcd_while a b) = Z.gcd a b.
Proof.
  funelim (gcd_while a b).
  - subst b. rewrite Z.gcd_0_r. reflexivity.
  - rewrite <- (loop_body_gcd a b). assumption.
Qed.

Lemma gcd_while_nonneg (a b : Z) : 0 <= a → 0 <= b → 0 <= gcd_while a b.
Proof.
  funelim (gcd_while a b); intros Ha Hb.
  - assumption.
  - match goal with IH : _ → _ → 0 <= gcd_while _ _ |- _ => apply IH end.
    + assumption.
    + apply Z.mod_pos_bound. lia.
Qed.

Lemma gcd_while_Zgcd (a b : Z) : 0 <= a → 0 <= b → gcd_while a b = Z.gcd a b.
Proof.
  intros Ha Hb. rewrite <- gcd_while_abs.
  symmetry. apply Z.abs_eq. apply gcd_while_nonneg; assumption.
Qed.

Lemma gcd_while_pos (a b : Z) : 1 <= a → 1 <= b → 0 < gcd_while a b.
Proof.
  intros Ha Hb. rewrite gcd_while_Zgcd by lia.
  pose proof (Z.gcd_nonneg a b).
  assert (Z.gcd a b ≠ 0); [|lia].
  intros H0. apply Z.gcd_eq_0_l in H0. lia.
Qed.

(** The budgeted loop and the total one agree. *)
Lemma loop_run_sound (n : nat) (s : loop_state) (r : Z) :
  loop_run n s = Some r → r = gcd_while s.1 s.2.
Proof.
  revert s. induction n as [|n IH]; intros [a b]; simpl; unfold loop_guard; simpl.
  - destruct (Z.eqb_spec b 0) as [->|Hb]; simpl; [|discriminate].
    intros [= <-]. symmetry. apply gcd_while_zero.
  - destruct (Z.eqb_spec b 0) as [->|Hb]; simpl.
    + intros [= <-]. symmetry. apply gcd_while_zero.
    + intros Hrun. apply IH in Hrun. simpl in Hrun.
      rewrite gcd_while_nonzero by assumption. assumption.
Qed.

Lemma loop_run_enough (n : nat) (a b : Z) :
  (Z.abs_nat b <= n)%nat → loop_run n (a, b) = Some (gcd_while a b).
Proof.
  revert a b. induction n as [|n IH]; intros a b Hn; simpl; unfold loop_guard; simpl.
  - assert (b = 0) as -> by lia. simpl. rewrite gcd_while_zero. reflexivity.
  - destruct (Z.eqb_spec b 0) as [->|Hb]; simpl.
    + rewrite gcd_while_zero. reflexivity.
    + rewrite gcd_while_nonzero by assumption. apply IH.
      destruct (Z_lt_ge_dec 0 b).
      * pose proof (Z.mod_pos_bound a b ltac:(lia)). lia.
      * pose proof (Z.mod_neg_bound a b ltac:(lia)). lia.
Qed.

(** While the second variable is positive, one execution of the body
    makes it smaller and keeps it non-negative. *)
Lemma loop_step_decreases (s s' : loop_state) :
  0 <= s.2 → loop_step s s' → 0 <= s'.2 < s.2.
Proof.
  intros Hs [Hguard ->]. unfold loop_guard in Hguard. simpl.
  apply Z.mod_pos_bound.
  destruct (Z.eqb_spec s.2 0); [discriminate|lia].
Qed.

Lemma loop_reach_nonneg (s0 s : loop_state) :
  0 <= s0.2 → rtc loop_step s0 s → 0 <= s.2.
Proof.
  intros H0 Hreach. induction Hreach as [|s1 s2 s3 Hstep _ IH]; [assumption|].
  apply IH. apply (loop_step_decreases s1 s2); assumption.
Qed.

End Loop.

(** Reading the oracle's dictionary the way the verifier does. *)
Lemma gcd_subscript (a b : Z) (args : list pyval) (kwargs : gmap string pyval) :
  subscript (gcd a b args kwargs) "gcd" = Return (PyInt (gcd_while a b)).
Proof. unfold gcd, subscript. rewrite lookup_singleton_eq. reflexivity. Qed.

(** ** The oracle *)

(** C1. For all integers [a], [b] with [1 <= a, b <= 100], the value which
    the oracle reports under ['gcd'] divides both [a] and [b] exactly (the
    remainders are zero), and no integer greater than it divides both. *)
Theorem gcd_divides_and_greatest (a b : Z) (args : list pyval) (kwargs : gmap string pyval) :
  1 <= a <= 100 → 1 <= b <= 100 →
  ∃ g : Z,
    subscript (gcd a b args kwargs) "gcd" = Return (PyInt g) ∧
    ((g | a) ∧ a mod g = 0) ∧
    ((g | b) ∧ b mod g = 0) ∧
    ∀ d : Z, g < d → ¬ ((d | a) ∧ (d | b)).
Proof.
  intros Ha Hb. exists (gcd_while a b).
  split; [apply gcd_subscript|].
  pose proof (gcd_while_pos a b ltac:(lia) ltac:(lia)) as Hpos.
  rewrite gcd_while_Zgcd in * by lia.
  pose proof (Z.gcd_divide_l a b) as Hl.
  pose proof (Z.gcd_divide_r a b) as Hr.
  repeat split; try assumption.
  - apply Z.mod_divide; [lia|assumption].
  - apply Z.mod_divide; [lia|assumption].
  - intros d Hd [Hda Hdb].
    pose proof (Z.gcd_greatest a b d Hda Hdb) as Hdg.
    apply Z.divide_pos_le in Hdg; lia.
Qed.

Lemma gcd_divides_and_greatest_48_18 :
  ∃ g : Z,
    subscript (gcd 48 18 [] ∅) "gcd" = Return (PyInt g) ∧
    ((g | 48) ∧ 48 mod g = 0) ∧
    ((g | 18) ∧ 18 mod g = 0) ∧
    ∀ d : Z, g < d → ¬ ((d | 48) ∧ (d | 18)).
Proof. apply (gcd_divides_and_greatest 48 18 [] ∅); lia. Defined.

(** C4, as stated, fails: the cell [gcd(13, 19)] evaluates to [{'gcd': 1}],
    a dictionary, not to an integer. *)
Lemma gcd_13_19_not_an_int : ¬ returns_positive_int (gcd 13 19 [] ∅).
Proof. intros [g [Heq _]]. discriminate Heq. Qed.

(** C4, amended. For positive integers [a], [b] the oracle returns the
    dictionary with the single key ['gcd']; its value is a positive integer,
    the greatest common divisor of [a] and [b]. *)
Theorem gcd_returns_gcd_dict (a b : Z) (args : list pyval) (kwargs : gmap string pyval) :
  1 <= a → 1 <= b →
  ∃ g : Z,
    gcd a b args kwargs = PyDict {[ "gcd" := PyInt g ]} ∧ 0 < g ∧ g = Z.gcd a b.
Proof.
  intros Ha Hb. exists (gcd_while a b). split; [reflexivity|]. split.
  - apply gcd_while_pos; assumption.
  - apply gcd_while_Zgcd; lia.
Qed.

Lemma gcd_returns_gcd_dict_9_27 :
  ∃ g : Z, gcd 9 27 [] ∅ = PyDict {[ "gcd" := PyInt g ]} ∧ 0 < g ∧ g = Z.gcd 9 27.
Proof. apply (gcd_returns_gcd_dict 9 27 [] ∅); lia. Defined.

(** C5. With [b == 0] on entry the guard of the loop is false at once, the
    body is never executed, and the oracle reports [a] unchanged, whatever
    [a] is. *)
Theorem gcd_b_zero (a : Z) (args : list pyval) (kwargs : gmap string pyval) :
  loop_guard (a, 0) = false ∧
  (∀ s' : loop_state, ¬ loop_step (a, 0) s') ∧
  loop_run 0 (a, 0) = Some a ∧
  gcd a 0 args kwargs = PyDict {[ "gcd" := PyInt a ]}.
Proof.
  split; [reflexivity|]. split; [|split].
  - intros s' [Hguard _]. discriminate Hguard.
  - reflexivity.
  - unfold gcd. rewrite gcd_while_zero. reflexivity.
Qed.

(** C6. For positive integers [a], [b] the iteration which replaces
    [(a, b)] by [(b, a mod b)] terminates: in every state the loop reaches,
    executing the body makes the second component strictly smaller while it
    stays at least zero, so that at most [b] executions of the body lead to
    the [return], with the value which [gcd] reports. *)
Theorem gcd_loop_terminates (a b : Z) :
  1 <= a → 1 <= b →
  (∀ s s' : loop_state, rtc loop_step (a, b) s → loop_step s s' → 0 <= s'.2 < s.2) ∧
  (∃ (n : nat) (r : Z),
      (n <= Z.to_nat b)%nat ∧
      loop_run n (a, b) = Some r ∧
      gcd a b [] ∅ = PyDict {[ "gcd" := PyInt r ]}).
Proof.
  intros Ha Hb. split.
  - intros s s' Hreach Hstep.
    apply loop_step_decreases; [|assumption].
    apply (loop_reach_nonneg (a, b)); [simpl; lia|assumption].
  - exists (Z.to_nat b), (gcd_while a b).
    split; [reflexivity|]. split; [|reflexivity].
    apply loop_run_enough. lia.
Qed.

Lemma gcd_loop_terminates_48_18 :
  (∀ s s' : loop_state, rtc loop_step (48, 18) s → loop_step s s' → 0 <= s'.2 < s.2) ∧
  (∃ (n : nat) (r : Z),
      (n <= Z.to_nat 18)%nat ∧
      loop_run n (48, 18) = Some r ∧
      gcd 48 18 [] ∅ = PyDict {[ "gcd" := PyInt r ]}).
Proof. apply (gcd_loop_terminates 48 18); lia. Defined.

(** C7. Commutativity: for positive integers [a], [b] the calls [gcd(a, b)]
    and [gcd(b, a)] return equal results. *)
Theorem gcd_commutative (a b : Z) (args : list pyval) (kwargs : gmap string pyval) :
  1 <= a → 1 <= b → gcd a b args kwargs = gcd b a args kwargs.
Proof.
  intros Ha Hb. unfold gcd.
  rewrite (gcd_while_Zgcd a b), (gcd_while_Zgcd b a) by lia.
  rewrite Z.gcd_comm. reflexivity.
Qed.

Lemma gcd_commutative_48_18 : gcd 48 18 [] ∅ = gcd 18 48 [] ∅.
Proof. apply (gcd_commutative 48 18 [] ∅); lia. Defined.

(** C8. Boundary identities: for every integer [a >= 1] the oracle reports
    [1] for [(a, 1)] and [a] for [(a, a)]. *)
Theorem gcd_boundary (a : Z) (args : list pyval) (kwargs : gmap string pyval) :
  1 <= a →
  subscript (gcd a 1 args kwargs) "gcd" = Return (PyInt 1) ∧
  subscript (gcd a a args kwargs) "gcd" = Return (PyInt a).
Proof.
  intros Ha. rewrite !gcd_subscript. split; do 2 f_equal.
  - rewrite gcd_while_Zgcd by lia. apply Z.gcd_1_r.
  - rewrite gcd_while_Zgcd by lia. rewrite Z.gcd_diag. apply Z.abs_eq. lia.
Qed.

Lemma gcd_boundary_7 :
  subscript (gcd 7 1 [] ∅) "gcd" = Return (PyInt 1) ∧
  subscript (gcd 7 7 [] ∅) "gcd" = Return (PyInt 7).
Proof. apply (gcd_boundary 7 [] ∅). lia. Defined.

(** C9. The concrete scenarios: the oracle reports [1] for [(13, 19)], [9]
    for [(9, 27)], [2] for [(2, 2)] and [6] for [(48, 18)]. *)
Theorem gcd_scenarios :
  subscript (gcd 13 19 [] ∅) "gcd" = Return (PyInt 1) ∧
  subscript (gcd 9 27 [] ∅) "gcd" = Return (PyInt 9) ∧
  subscript (gcd 2 2 [] ∅) "gcd" = Return (PyInt 2) ∧
  subscript (gcd 48 18 [] ∅) "gcd" = Return (PyInt 6).
Proof.
  rewrite !gcd_subscript.
  repeat split; do 2 f_equal;
    repeat (rewrite gcd_while_nonzero by discriminate; simpl);
    apply gcd_while_zero.
Qed.

(** C10. The oracle accepts arbitrary extra positional and keyword arguments
    (for example [solver='cbc']) and its result depends on [a] and [b] only;
    hence [gcd] itself can be handed to the verifier as the candidate, and
    the verification of every pair then passes. *)
Theorem gcd_ignores_extra_arguments (a b : Z) :
  (∀ (args args' : list pyval) (kwargs kwargs' : gmap string pyval),
      gcd a b args kwargs = gcd a b args' kwargs') ∧
  gcd a b [] {[ "solver" := PyStr "cbc" ]} = gcd a b [] ∅ ∧
  (∀ solver : pyval, test_gcd_function a b gcd_as_candidate solver = Return ()).
Proof.
  split; [reflexivity|]. split; [reflexivity|].
  intros solver. unfold test_gcd_function, call_candidate, gcd_as_candidate.
  rewrite gcd_subscript. cbn [mbind result_bind].
  rewrite gcd_subscript. cbn [mbind result_bind py_eq].
  rewrite Z.eqb_refl. reflexivity.
Qed.

(** ** The verifier *)

Section Verifier.

Variables (a b : Z) (gcd_function : candidate) (solver : pyval).

Lemma test_gcd_function_call :
  test_gcd_function a b gcd_function solver
  = (gcd_mip_result ← call_candidate gcd_function a b solver;
     gcd_mip ← subscript gcd_mip_result "gcd";
     if py_eq (PyInt (gcd_while a b)) gcd_mip then Return ()
     else
       termination_message ← subscript gcd_mip_result "termination_message";
       Raise (AssertionError (failure_message a b gcd_mip termination_message))).
Proof. unfold test_gcd_function. rewrite gcd_subscript. reflexivity. Qed.

Lemma test_candidate_raises (e : exn) :
  call_candidate gcd_function a b solver = Raise e →
  test_gcd_function a b gcd_function solver = Raise e.
Proof. intros Hcall. rewrite test_gcd_function_call, Hcall. reflexivity. Qed.

Lemma test_candidate_not_a_dict (v : pyval) :
  call_candidate gcd_function a b solver = Return (PyScalar v) →
  test_gcd_function a b gcd_function solver = Raise TypeError.
Proof. intros Hcall. rewrite test_gcd_function_call, Hcall. reflexivity. Qed.

Lemma test_candidate_without_gcd (d : gmap string pyval) :
  call_candidate gcd_function a b solver = Return (PyDict d) →
  d !! "gcd" = None →
  test_gcd_function a b gcd_function solver = Raise (KeyError "gcd").
Proof.
  intros Hcall Hgcd. rewrite test_gcd_function_call, Hcall.
  run_test. rewrite Hgcd. reflexivity.
Qed.

Lemma test_values_agree (d : gmap string pyval) (v : pyval) :
  call_candidate gcd_function a b solver = Return (PyDict d) →
  d !! "gcd" = Some v →
  py_eq (PyInt (gcd_while a b)) v = true →
  test_gcd_function a b gcd_function solver = Return ().
Proof.
  intros Hcall Hgcd Heq. rewrite test_gcd_function_call, Hcall.
  run_test. rewrite Hgcd. run_test. rewrite Heq. reflexivity.
Qed.

Lemma test_values_differ (d : gmap string pyval) (v t : pyval) :
  call_candidate gcd_function a b solver = Return (PyDict d) →
  d !! "gcd" = Some v →
  py_eq (PyInt (gcd_while a b)) v = false →
  d !! "termination_message" = Some t →
  test_gcd_function a b gcd_function solver
  = Raise (AssertionError (failure_message a b v t)).
Proof.
  intros Hcall Hgcd Heq Hmsg. rewrite test_gcd_function_call, Hcall.
  run_test. rewrite Hgcd. run_test. rewrite Heq, Hmsg. reflexivity.
Qed.

(** X15. The message of the assertion reads a key which the result need
    not have: whenever the candidate's value differs from the oracle's and
    its result has no ['termination_message'] entry, the test raises
    [KeyError('termination_message')]. *)
Lemma test_values_differ_no_message (d : gmap string pyval) (v : pyval) :
  call_candidate gcd_function a b solver = Return (PyDict d) →
  d !! "gcd" = Some v →
  py_eq (PyInt (gcd_while a b)) v = false →
  d !! "termination_message" = None →
  test_gcd_function a b gcd_function solver = Raise (KeyError "termination_message").
Proof.
  intros Hcall Hgcd Heq Hmsg. rewrite test_gcd_function_call, Hcall.
  run_test. rewrite Hgcd. run_test. rewrite Heq, Hmsg. reflexivity.
Qed.

(** X7. The status entries of a result are never read: for two candidates
    whose results have the same ['gcd'] and ['termination_message'] entries
    the test ends in the same way, whatever else the results hold. *)
Lemma test_reads_two_keys (f' : candidate) (d d' : gmap string pyval) :
  call_candidate gcd_function a b solver = Return (PyDict d) →
  call_candidate f' a b solver = Return (PyDict d') →
  d !! "gcd" = d' !! "gcd" →
  d !! "termination_message" = d' !! "termination_message" →
  test_gcd_function a b gcd_function solver = test_gcd_function a b f' solver.
Proof.
  intros Hcall Hcall' Hgcd Hmsg.
  rewrite test_gcd_function_call, Hcall.
  unfold test_gcd_function. rewrite gcd_subscript, Hcall'.
  run_test. rewrite Hgcd, Hmsg. reflexivity.
Qed.

End Verifier.

(** C2. At the falsifying example which the notebook records
    ([gcd_function=gcd_ip1], [a = 2], [b = 2]) the oracle reports [2] and
    the candidate [0.0]; the candidate's result has no key
    ['termination_message'], and building the message of the assertion
    raises [KeyError('termination_message')], which is what the test ends
    with: no placeholder is substituted and the mismatch is not the failure
    that surfaces. *)
Theorem mismatch_masked_by_key_error :
  subscript (gcd 2 2 [] ∅) "gcd" = Return (PyInt 2) ∧
  subscript (PyDict gcd_ip1_2_2) "gcd" = Return (PyFloat 0 0) ∧
  py_eq (PyInt 2) (PyFloat 0 0) = false ∧
  gcd_ip1_2_2 !! "termination_message" = None ∧
  test_gcd_function 2 2 recorded_gcd_ip1 (PyStr "cbc")
  = Raise (KeyError "termination_message").
Proof. repeat split; vm_compute; reflexivity. Qed.

(** C3, as stated, fails: a result which reports an infeasible solve and
    carries [0.0] under ['gcd'] is compared with the oracle's value like any
    other, and the test fails with the assertion of the comparison. *)
Lemma infeasible_compared_as_number :
  ¬ failure_reported_separately 2 2 infeasible_candidate (PyStr "cbc").
Proof.
  intros Hclaim. destruct Hclaim as [e [Hrun Hkind]].
  - right. vm_compute. reflexivity.
  - apply Hkind. vm_compute in Hrun. injection Hrun as <-. eexists. reflexivity.
Qed.

(** C3, amended. An exception raised by the candidate surfaces unchanged,
    and a result which is not a dictionary, or has no ['gcd'] entry, makes
    the test raise [TypeError], or [KeyError('gcd')]: none of these is the
    assertion of the comparison.  The status which a result reports is not
    read: a result with a ['gcd'] entry is compared with the oracle's value;
    the test passes when the two are equal, and when they differ and the
    result has a ['termination_message'] entry it fails with the assertion
    whose message carries [a], [b], the candidate's value and that entry. *)
Theorem candidate_failures_surface
    (a b : Z) (gcd_function : candidate) (solver : pyval) :
  (∀ e : exn,
      call_candidate gcd_function a b solver = Raise e →
      test_gcd_function a b gcd_function solver = Raise e) ∧
  (∀ v : pyval,
      call_candidate gcd_function a b solver = Return (PyScalar v) →
      test_gcd_function a b gcd_function solver = Raise TypeError) ∧
  (∀ d : gmap string pyval,
      call_candidate gcd_function a b solver = Return (PyDict d) →
      d !! "gcd" = None →
      test_gcd_function a b gcd_function solver = Raise (KeyError "gcd")) ∧
  (∀ (d : gmap string pyval) (v : pyval),
      call_candidate gcd_function a b solver = Return (PyDict d) →
      d !! "gcd" = Some v →
      py_eq (PyInt (gcd_while a b)) v = true →
      test_gcd_function a b gcd_function solver = Return ()) ∧
  (∀ (d : gmap string pyval) (v t : pyval),
      call_candidate gcd_function a b solver = Return (PyDict d) →
      d !! "gcd" = Some v →
      py_eq (PyInt (gcd_while a b)) v = false →
      d !! "termination_message" = Some t →
      test_gcd_function a b gcd_function solver
      = Raise (AssertionError (failure_message a b v t))).
Proof.
  split; [|split; [|split; [|split]]].
  - apply test_candidate_raises.
  - apply test_candidate_not_a_dict.
  - apply test_candidate_without_gcd.
  - apply test_values_agree.
  - apply test_values_differ.
Qed.

Lemma candidate_failures_surface_examples :
  test_gcd_function 2 2 raising_candidate (PyStr "cbc") = Raise (OtherError "ValueError") ∧
  test_gcd_function 2 2 infeasible_candidate (PyStr "cbc")
  = Raise (AssertionError (failure_message 2 2 (PyFloat 0 0) (PyStr "infeasible"))).
Proof.
  split.
  - apply (proj1 (candidate_failures_surface 2 2 raising_candidate (PyStr "cbc"))).
    reflexivity.
  - apply (proj2 (proj2 (proj2 (proj2
             (candidate_failures_surface 2 2 infeasible_candidate (PyStr "cbc")))))
           infeasible_result).
    + reflexivity.
    + vm_compute. reflexivity.
    + vm_compute. reflexivity.
    + vm_compute. reflexivity.
Defined.

(** * Further properties of the notebook's code *)

(** ** The oracle outside its domain *)

Section Signs.

Lemma gcd_while_nonpos (a b : Z) : a <= 0 → b <= 0 → gcd_while a b <= 0.
Proof.
  funelim (gcd_while a b); intros Ha Hb.
  - assumption.
  - match goal with IH : _ → _ → gcd_while _ _ <= 0 |- _ => apply IH end.
    + assumption.
    + apply Z.mod_neg_bound. lia.
Qed.

Lemma gcd_while_signed (a b : Z) : b ≠ 0 → gcd_while a b = Z.sgn b * Z.gcd a b.
Proof.
  intros Hb. rewrite gcd_while_nonzero by assumption.
  pose proof (gcd_while_abs b (a mod b)) as Habs.
  rewrite loop_body_gcd in Habs.
  destruct (Z_lt_ge_dec 0 b) as [Hpos|Hneg].
  - pose proof (Z.mod_pos_bound a b Hpos).
    pose proof (gcd_while_nonneg b (a mod b) ltac:(lia) ltac:(lia)).
    rewrite Z.sgn_pos by assumption. lia.
  - pose proof (Z.mod_neg_bound a b ltac:(lia)).
    pose proof (gcd_while_nonpos b (a mod b) ltac:(lia) ltac:(lia)).
    rewrite Z.sgn_neg by lia. lia.
Qed.

Lemma gcd_nonzero_pos (a b : Z) : a ≠ 0 ∨ b ≠ 0 → 0 < Z.gcd a b.
Proof.
  intros Hab. pose proof (Z.gcd_nonneg a b).
  assert (Z.gcd a b ≠ 0); [|lia].
  intros H0. destruct Hab as [Ha|Hb]; [apply Ha|apply Hb].
  - apply (Z.gcd_eq_0_l a b H0).
  - apply (Z.gcd_eq_0_r a b H0).
Qed.

End Signs.

(** X1. The oracle does not validate its arguments, and returns for every
    pair of integers: [a] itself when [b] is zero, and otherwise the
    greatest common divisor with the sign of [b]. *)
Theorem gcd_on_all_integers (a b : Z) (args : list pyval) (kwargs : gmap string pyval) :
  subscript (gcd a b args kwargs) "gcd"
  = Return (PyInt (if b =? 0 then a else Z.sgn b * Z.gcd a b)).
Proof.
  rewrite gcd_subscript. do 2 f_equal.
  destruct (Z.eqb_spec b 0) as [->|Hb].
  - apply gcd_while_zero.
  - apply gcd_while_signed. assumption.
Qed.

(** X2. For non-zero integers, swapping the arguments leaves the result
    unchanged exactly when the two have the same sign: between arguments of
    opposite signs the oracle is not commutative. *)
Theorem gcd_commutes_iff_same_sign (a b : Z) (args : list pyval) (kwargs : gmap string pyval) :
  a ≠ 0 → b ≠ 0 →
  (gcd a b args kwargs = gcd b a args kwargs ↔ Z.sgn a = Z.sgn b).
Proof.
  intros Ha Hb.
  pose proof (gcd_nonzero_pos a b (or_introl Ha)) as Hg.
  split.
  - intros Heq. apply (f_equal (λ o, subscript o "gcd")) in Heq.
    rewrite !gcd_subscript in Heq. injection Heq as Heq.
    rewrite (gcd_while_signed a b Hb), (gcd_while_signed b a Ha), (Z.gcd_comm b a) in Heq.
    apply Z.mul_cancel_r in Heq; lia.
  - intros Hsgn. unfold gcd.
    rewrite (gcd_while_signed a b Hb), (gcd_while_signed b a Ha), (Z.gcd_comm b a), Hsgn.
    reflexivity.
Qed.

Lemma gcd_commutes_iff_same_sign_4_m6 :
  gcd 4 (-6) [] ∅ = gcd (-6) 4 [] ∅ ↔ Z.sgn 4 = Z.sgn (-6).
Proof. apply (gcd_commutes_iff_same_sign 4 (-6) [] ∅); lia. Defined.

(** X3. For positive [a], [b] the reported value lies between [1] and
    [min(a, b)]. *)
Theorem gcd_between_1_and_min (a b : Z) (args : list pyval) (kwargs : gmap string pyval) :
  1 <= a → 1 <= b →
  ∃ g : Z, subscript (gcd a b args kwargs) "gcd" = Return (PyInt g) ∧ 1 <= g <= Z.min a b.
Proof.
  intros Ha Hb. exists (gcd_while a b). split; [apply gcd_subscript|].
  pose proof (gcd_while_pos a b Ha Hb).
  rewrite gcd_while_Zgcd in * by lia.
  pose proof (Z.divide_pos_le (Z.gcd a b) a ltac:(lia) (Z.gcd_divide_l a b)).
  pose proof (Z.divide_pos_le (Z.gcd a b) b ltac:(lia) (Z.gcd_divide_r a b)).
  lia.
Qed.

Lemma gcd_between_1_and_min_48_18 :
  ∃ g : Z, subscript (gcd 48 18 [] ∅) "gcd" = Return (PyInt g) ∧ 1 <= g <= Z.min 48 18.
Proof. apply (gcd_between_1_and_min 48 18 [] ∅); lia. Defined.

(** ** The cost of the loop *)

Lemma loop_run_halving (k : nat) (a b : Z) :
  0 <= b < 2 ^ Z.of_nat k → is_Some (loop_run (2 * k) (a, b)).
Proof.
  revert a b. induction k as [|k IH]; intros a b Hb.
  - assert (b = 0) as -> by (change (2 ^ Z.of_nat 0) with 1 in Hb; lia).
    simpl. eauto.
  - replace (2 * S k)%nat with (S (S (2 * k))) by lia.
    rewrite Nat2Z.inj_succ, Z.pow_succ_r in Hb by lia.
    cbn [loop_run]. unfold loop_guard, loop_body. cbn [fst snd].
    destruct (Z.eqb_spec b 0) as [->|Hb0]; cbn [negb]; [eauto|].
    pose proof (Z.mod_pos_bound a b ltac:(lia)) as Hr1.
    destruct (Z.eqb_spec (a mod b) 0) as [Hz|Hr0]; cbn [negb]; [eauto|].
    pose proof (Z.mod_pos_bound b (a mod b) ltac:(lia)) as Hr2.
    apply IH. split; [lia|].
    pose proof (Z.div_mod b (a mod b) Hr0) as Hdiv.
    assert (1 <= b / (a mod b)) by (apply Z.div_le_lower_bound; lia).
    nia.
Qed.

(** X4. The second variable at least halves with every two executions of
    the body: for every [a] and every [0 <= b < 2^k] the loop returns
    within [2 k] executions of its body. *)
Theorem gcd_loop_logarithmic (k : nat) (a b : Z) :
  0 <= b < 2 ^ Z.of_nat k →
  loop_run (2 * k) (a, b) = Some (gcd_while a b).
Proof.
  intros Hb. destruct (loop_run_halving k a b Hb) as [r Hr].
  rewrite Hr. f_equal. apply (loop_run_sound _ _ _ Hr).
Qed.

Lemma gcd_loop_logarithmic_144_89 : loop_run (2 * 7) (144, 89) = Some (gcd_while 144 89).
Proof. apply (gcd_loop_logarithmic 7 144 89). simpl. lia. Defined.

(** ** What the outcomes of the verifier mean *)

(** X5. The test of a pair passes exactly when the candidate returned a
    dictionary whose ['gcd'] entry equals the oracle's value: no candidate
    which raises, returns another kind of object, or reports a different
    number gets through. *)
Theorem test_passes_iff (a b : Z) (gcd_function : candidate) (solver : pyval) :
  test_gcd_function a b gcd_function solver = Return () ↔
  ∃ (d : gmap string pyval) (v : pyval),
    call_candidate gcd_function a b solver = Return (PyDict d) ∧
    d !! "gcd" = Some v ∧
    py_eq (PyInt (gcd_while a b)) v = true.
Proof.
  rewrite test_gcd_function_call. split.
  - destruct (call_candidate gcd_function a b solver) as [[v|d]|e];
      run_test; try discriminate.
    destruct (d !! "gcd") as [v|] eqn:Hgcd; run_test; [|discriminate].
    destruct (py_eq (PyInt (gcd_while a b)) v) eqn:Heq.
    + intros _. exists d, v. auto.
    + destruct (d !! "termination_message"); discriminate.
  - intros (d & v & -> & Hgcd & Heq).
    run_test. rewrite Hgcd. run_test. rewrite Heq. reflexivity.
Qed.

(** X6. When the candidate returned normally and the test raises an
    [AssertionError], the returned object is a dictionary whose ['gcd']
    entry differs from the oracle's value, and the message carries [a],
    [b], that entry and the ['termination_message'] entry: the assertion is
    never raised for a value which agrees with the oracle. *)
Theorem test_assertion_means_mismatch
    (a b : Z) (gcd_function : candidate) (solver : pyval) (o : pyobj) (msg : list fpart) :
  call_candidate gcd_function a b solver = Return o →
  test_gcd_function a b gcd_function solver = Raise (AssertionError msg) →
  ∃ (d : gmap string pyval) (v t : pyval),
    o = PyDict d ∧
    d !! "gcd" = Some v ∧
    py_eq (PyInt (gcd_while a b)) v = false ∧
    d !! "termination_message" = Some t ∧
    msg = failure_message a b v t.
Proof.
  intros Hcall. rewrite test_gcd_function_call, Hcall.
  destruct o as [v|d]; run_test; [discriminate|].
  destruct (d !! "gcd") as [v|] eqn:Hgcd; run_test; [|discriminate].
  destruct (py_eq (PyInt (gcd_while a b)) v) eqn:Heq; [discriminate|].
  destruct (d !! "termination_message") as [t|] eqn:Hmsg; [|discriminate].
  intros [= <-]. exists d, v, t. auto.
Qed.

Lemma test_assertion_means_mismatch_infeasible :
  ∃ (d : gmap string pyval) (v t : pyval),
    PyDict infeasible_result = PyDict d ∧
    d !! "gcd" = Some v ∧
    py_eq (PyInt (gcd_while 2 2)) v = false ∧
    d !! "termination_message" = Some t ∧
    failure_message 2 2 (PyFloat 0 0) (PyStr "infeasible") = failure_message 2 2 v t.
Proof.
  apply (test_assertion_means_mismatch 2 2 infeasible_candidate (PyStr "cbc")).
  - reflexivity.
  - vm_compute. reflexivity.
Defined.

(** The result of an infeasible solve and a result which is labelled
    optimal are treated alike. *)
Lemma test_reads_two_keys_status :
  test_gcd_function 2 2 infeasible_candidate (PyStr "cbc")
  = test_gcd_function 2 2 optimal_zero_candidate (PyStr "cbc").
Proof.
  apply (test_reads_two_keys 2 2 infeasible_candidate (PyStr "cbc")
           optimal_zero_candidate infeasible_result optimal_zero_result).
  - reflexivity.
  - reflexivity.
  - vm_compute. reflexivity.
  - vm_compute. reflexivity.
Defined.

(** ** The three integer programmes *)

Section Programmes.

Variables a b : Z.

Lemma gcd_ip0_feasible (σ : pyo.solution) :
  pyo.feasible (gcd_ip0_model a b) σ = true ↔
  1 <= σ "A" <= a ∧ 1 <= σ "B" <= b ∧ σ "A" * b = σ "B" * a.
Proof.
  unfold pyo.feasible, pyo.admits, gcd_ip0_model. simpl.
  rewrite !andb_true_iff, !Z.leb_le, Z.eqb_eq. intuition lia.
Qed.

Lemma gcd_ip1_feasible (σ : pyo.solution) :
  pyo.feasible (gcd_ip1_model a b) σ = true ↔
  1 <= σ "C" ∧ a * σ "A" + b * σ "B" = σ "C".
Proof.
  unfold pyo.feasible, pyo.admits, gcd_ip1_model. simpl.
  rewrite !andb_true_iff, !Z.leb_le, Z.eqb_eq. intuition lia.
Qed.

Lemma gcd_ip2_feasible (σ : pyo.solution) :
  pyo.feasible (gcd_ip2_model a b) σ = true ↔
  - b <= σ "A" <= b ∧ - a <= σ "B" <= a ∧ 1 <= σ "A" * a + σ "B" * b <= Z.min a b.
Proof.
  unfold pyo.feasible, pyo.admits, gcd_ip2_model. simpl.
  rewrite !andb_true_iff, !Z.leb_le. intuition lia.
Qed.

Hypotheses (Ha : 1 <= a) (Hb : 1 <= b).

(** [a] and [b] are the gcd times two coprime positive numbers. *)
Lemma coprime_parts :
  ∃ a' b' : Z,
    a = a' * Z.gcd a b ∧ b = b' * Z.gcd a b ∧ 1 <= a' ∧ 1 <= b' ∧ Z.gcd a' b' = 1.
Proof.
  pose proof (gcd_nonzero_pos a b ltac:(lia)) as Hg.
  destruct (Z.gcd_divide_l a b) as [a' Ha'].
  destruct (Z.gcd_divide_r a b) as [b' Hb'].
  exists a', b'. repeat split; try assumption; try nia.
  pose proof (Z.gcd_mul_mono_r_nonneg a' b' (Z.gcd a b) ltac:(lia)) as Hmono.
  rewrite <- Ha', <- Hb' in Hmono. nia.
Qed.

(** Coefficients of Bezout's identity which fit the bounds of [gcd_ip2]. *)
Lemma bezout_in_bounds :
  ∃ u v : Z, u * a + v * b = Z.gcd a b ∧ 0 <= u < b ∧ - a < v <= 1.
Proof.
  pose proof (gcd_nonzero_pos a b ltac:(lia)) as Hg.
  pose proof (Z.divide_pos_le (Z.gcd a b) b ltac:(lia) (Z.gcd_divide_r a b)) as Hgb.
  destruct (Z.gcd_bezout a b (Z.gcd a b) eq_refl) as (u0 & v0 & Huv).
  pose proof (Z.div_mod u0 b ltac:(lia)) as Hdiv.
  pose proof (Z.mod_pos_bound u0 b ltac:(lia)) as Hmod.
  exists (u0 mod b), (v0 + u0 / b * a).
  split; [nia|]. split; [lia|]. nia.
Qed.

End Programmes.

Lemma gcd_ip0_feasible_multiple (a b : Z) (σ : pyo.solution) :
  1 <= a → 1 <= b →
  pyo.feasible (gcd_ip0_model a b) σ = true →
  ∃ k : Z, 1 <= k ∧ σ "A" * Z.gcd a b = k * a ∧ σ "B" * Z.gcd a b = k * b.
Proof.
  intros Ha Hb Hfeas. apply gcd_ip0_feasible in Hfeas as (HA & HB & Heq).
  pose proof (gcd_nonzero_pos a b ltac:(lia)) as Hg.
  destruct (coprime_parts a b Ha Hb) as (a' & b' & Ha' & Hb' & Ha1 & Hb1 & Hco).
  assert (Hred : b' * σ "A" = σ "B" * a') by nia.
  destruct (Z.gauss a' b' (σ "A") (ex_intro _ (σ "B") Hred) Hco) as [k Hk].
  exists k. split; [nia|]. split; nia.
Qed.

Lemma gcd_ip0_optimal_iff (a b : Z) (σ : pyo.solution) :
  1 <= a → 1 <= b →
  (pyo.optimal (gcd_ip0_model a b) σ ↔
   σ "A" * Z.gcd a b = a ∧ σ "B" * Z.gcd a b = b).
Proof.
  intros Ha Hb.
  pose proof (gcd_nonzero_pos a b ltac:(lia)) as Hg.
  destruct (coprime_parts a b Ha Hb) as (a' & b' & Ha' & Hb' & Ha1 & Hb1 & Hco).
  assert (Hfeas0 : pyo.feasible (gcd_ip0_model a b) (solution_of a' b' 0) = true).
  { apply gcd_ip0_feasible. change (solution_of a' b' 0 "A") with a'.
    change (solution_of a' b' 0 "B") with b'. nia. }
  split.
  - intros [Hfeas Hbest].
    destruct (gcd_ip0_feasible_multiple a b σ Ha Hb Hfeas) as (k & Hk & HkA & HkB).
    specialize (Hbest _ Hfeas0).
    unfold pyo.no_worse, pyo.objective_value in Hbest. simpl in Hbest.
    change (solution_of a' b' 0 "A") with a' in Hbest.
    change (solution_of a' b' 0 "B") with b' in Hbest.
    assert (k = 1) by nia. subst k. lia.
  - intros [HA HB]. split.
    + apply gcd_ip0_feasible. nia.
    + intros σ' Hfeas'.
      destruct (gcd_ip0_feasible_multiple a b σ' Ha Hb Hfeas') as (k & Hk & HkA & HkB).
      unfold pyo.no_worse, pyo.objective_value. simpl.
      apply (Z.mul_le_mono_pos_r _ _ (Z.gcd a b)); [assumption|].
      replace ((σ "A" * b + σ "B" * a) * Z.gcd a b)
        with (σ "A" * Z.gcd a b * b + σ "B" * Z.gcd a b * a) by ring.
      replace ((σ' "A" * b + σ' "B" * a) * Z.gcd a b)
        with (σ' "A" * Z.gcd a b * b + σ' "B" * Z.gcd a b * a) by ring.
      rewrite HA, HB, HkA, HkB. nia.
Qed.

(** X8. The programme of [gcd_ip0] has one optimal solution for positive
    [a], [b]: [A = a / gcd] and [B = b / gcd], so that [a/A] and [b/B] are
    the greatest common divisor; its optimal value is twice the least
    common multiple. *)
Theorem gcd_ip0_optimum (a b : Z) :
  1 <= a → 1 <= b →
  (∀ σ : pyo.solution,
      pyo.optimal (gcd_ip0_model a b) σ ↔
      σ "A" * Z.gcd a b = a ∧ σ "B" * Z.gcd a b = b) ∧
  (∀ σ : pyo.solution,
      pyo.optimal (gcd_ip0_model a b) σ →
      pyo.objective_value (gcd_ip0_model a b) σ = 2 * Z.lcm a b).
Proof.
  intros Ha Hb.
  split; [intros σ; apply gcd_ip0_optimal_iff; assumption|].
  intros σ Hopt. apply gcd_ip0_optimal_iff in Hopt as [HA HB]; [|assumption..].
  pose proof (gcd_nonzero_pos a b ltac:(lia)) as Hg.
  destruct (coprime_parts a b Ha Hb) as (a' & b' & Ha' & Hb' & Ha1 & Hb1 & Hco).
  unfold pyo.objective_value. simpl.
  unfold Z.lcm. rewrite Hb' at 2. rewrite Z.div_mul by lia.
  rewrite Z.abs_eq by nia. nia.
Qed.

Lemma gcd_ip0_optimum_9_27 :
  (∀ σ : pyo.solution,
      pyo.optimal (gcd_ip0_model 9 27) σ ↔
      σ "A" * Z.gcd 9 27 = 9 ∧ σ "B" * Z.gcd 9 27 = 27) ∧
  (∀ σ : pyo.solution,
      pyo.optimal (gcd_ip0_model 9 27) σ →
      pyo.objective_value (gcd_ip0_model 9 27) σ = 2 * Z.lcm 9 27).
Proof. apply (gcd_ip0_optimum 9 27); lia. Defined.

Lemma gcd_ip1_objective (a b : Z) (σ : pyo.solution) :
  pyo.objective_value (gcd_ip1_model a b) σ = σ "A" * a + σ "B" * b.
Proof. reflexivity. Qed.

Lemma gcd_ip2_objective (a b : Z) (σ : pyo.solution) :
  pyo.objective_value (gcd_ip2_model a b) σ = σ "A" * a + σ "B" * b.
Proof. reflexivity. Qed.

Lemma gcd_ip1_floor (a b : Z) (σ : pyo.solution) :
  1 <= a → 1 <= b →
  pyo.feasible (gcd_ip1_model a b) σ = true → Z.gcd a b <= σ "A" * a + σ "B" * b.
Proof.
  intros Ha Hb Hfeas. apply gcd_ip1_feasible in Hfeas as [HC Heq].
  apply Z.divide_pos_le; [lia|].
  apply Z.divide_add_r; apply Z.divide_mul_r.
  - apply Z.gcd_divide_l.
  - apply Z.gcd_divide_r.
Qed.

Lemma gcd_ip1_optimal_iff (a b : Z) (σ : pyo.solution) :
  1 <= a → 1 <= b →
  (pyo.optimal (gcd_ip1_model a b) σ ↔
   pyo.feasible (gcd_ip1_model a b) σ = true ∧ σ "A" * a + σ "B" * b = Z.gcd a b).
Proof.
  intros Ha Hb.
  pose proof (gcd_nonzero_pos a b ltac:(lia)) as Hg.
  split.
  - intros [Hfeas Hbest]. split; [assumption|].
    pose proof (gcd_ip1_floor a b σ Ha Hb Hfeas) as Hfloor.
    destruct (Z.gcd_bezout a b (Z.gcd a b) eq_refl) as (u & v & Huv).
    specialize (Hbest (solution_of u v (Z.gcd a b))).
    rewrite !gcd_ip1_objective in Hbest.
    change (solution_of u v (Z.gcd a b) "A") with u in Hbest.
    change (solution_of u v (Z.gcd a b) "B") with v in Hbest.
    cbn [pyo.no_worse pyo.objective gcd_ip1_model snd] in Hbest.
    assert (σ "A" * a + σ "B" * b <= u * a + v * b); [|lia].
    apply Hbest. apply gcd_ip1_feasible.
    change (solution_of u v (Z.gcd a b) "A") with u.
    change (solution_of u v (Z.gcd a b) "B") with v.
    change (solution_of u v (Z.gcd a b) "C") with (Z.gcd a b). lia.
  - intros [Hfeas Hval]. split; [assumption|].
    intros σ' Hfeas'. rewrite !gcd_ip1_objective.
    cbn [pyo.no_worse pyo.objective gcd_ip1_model snd].
    pose proof (gcd_ip1_floor a b σ' Ha Hb Hfeas'). lia.
Qed.

(** X9. In the programme of [gcd_ip1], for positive [a], [b], no feasible
    solution has a value of [A*a + B*b] below the greatest common divisor
    (in particular none has the value zero), an optimal solution exists, and
    every optimal solution has exactly the greatest common divisor as the
    value which the function reports. *)
Theorem gcd_ip1_optimum (a b : Z) :
  1 <= a → 1 <= b →
  (∀ σ : pyo.solution,
      pyo.feasible (gcd_ip1_model a b) σ = true →
      Z.gcd a b <= pyo.objective_value (gcd_ip1_model a b) σ) ∧
  (∃ σ : pyo.solution, pyo.optimal (gcd_ip1_model a b) σ) ∧
  (∀ σ : pyo.solution,
      pyo.optimal (gcd_ip1_model a b) σ →
      pyo.objective_value (gcd_ip1_model a b) σ = Z.gcd a b).
Proof.
  intros Ha Hb. split; [|split].
  - intros σ Hfeas. rewrite gcd_ip1_objective. apply gcd_ip1_floor; assumption.
  - destruct (Z.gcd_bezout a b (Z.gcd a b) eq_refl) as (u & v & Huv).
    pose proof (gcd_nonzero_pos a b ltac:(lia)) as Hg.
    exists (solution_of u v (Z.gcd a b)).
    apply gcd_ip1_optimal_iff; [assumption..|].
    rewrite gcd_ip1_feasible.
    change (solution_of u v (Z.gcd a b) "A") with u.
    change (solution_of u v (Z.gcd a b) "B") with v.
    change (solution_of u v (Z.gcd a b) "C") with (Z.gcd a b). lia.
  - intros σ Hopt. rewrite gcd_ip1_objective.
    apply gcd_ip1_optimal_iff in Hopt as [_ Hval]; assumption.
Qed.

Lemma gcd_ip1_optimum_2_2 :
  (∀ σ : pyo.solution,
      pyo.feasible (gcd_ip1_model 2 2) σ = true →
      Z.gcd 2 2 <= pyo.objective_value (gcd_ip1_model 2 2) σ) ∧
  (∃ σ : pyo.solution, pyo.optimal (gcd_ip1_model 2 2) σ) ∧
  (∀ σ : pyo.solution,
      pyo.optimal (gcd_ip1_model 2 2) σ →
      pyo.objective_value (gcd_ip1_model 2 2) σ = Z.gcd 2 2).
Proof. apply (gcd_ip1_optimum 2 2); lia. Defined.

(** X10. The programme of [gcd_ip1] leaves [A] and [B] unbounded: for
    positive [a], [b] and every bound [N] there is an optimal solution with
    [A] above [N] and [B] below [-N], so an optimum is never unique and a
    solver may return coefficients of any size. *)
Theorem gcd_ip1_optima_unbounded (a b N : Z) :
  1 <= a → 1 <= b →
  ∃ σ : pyo.solution,
    pyo.optimal (gcd_ip1_model a b) σ ∧ N < σ "A" ∧ σ "B" < - N.
Proof.
  intros Ha Hb.
  destruct (Z.gcd_bezout a b (Z.gcd a b) eq_refl) as (u & v & Huv).
  pose proof (gcd_nonzero_pos a b ltac:(lia)) as Hg.
  set (k := Z.abs N + Z.abs u + Z.abs v + 1).
  assert (Hk : 1 <= k ∧ Z.abs N + Z.abs u < k ∧ Z.abs N + Z.abs v < k) by lia.
  exists (solution_of (u + k * b) (v - k * a) (Z.gcd a b)).
  change (solution_of (u + k * b) (v - k * a) (Z.gcd a b) "A") with (u + k * b).
  change (solution_of (u + k * b) (v - k * a) (Z.gcd a b) "B") with (v - k * a).
  split; [|nia].
  apply gcd_ip1_optimal_iff; [assumption..|].
  rewrite gcd_ip1_feasible.
  change (solution_of (u + k * b) (v - k * a) (Z.gcd a b) "A") with (u + k * b).
  change (solution_of (u + k * b) (v - k * a) (Z.gcd a b) "B") with (v - k * a).
  change (solution_of (u + k * b) (v - k * a) (Z.gcd a b) "C") with (Z.gcd a b).
  nia.
Qed.

Lemma gcd_ip1_optima_unbounded_2_2 :
  ∃ σ : pyo.solution,
    pyo.optimal (gcd_ip1_model 2 2) σ ∧ 12345679000 < σ "A" ∧ σ "B" < - 12345679000.
Proof. apply (gcd_ip1_optima_unbounded 2 2 12345679000); lia. Defined.

Lemma gcd_ip2_floor (a b : Z) (σ : pyo.solution) :
  1 <= a → 1 <= b →
  pyo.feasible (gcd_ip2_model a b) σ = true → Z.gcd a b <= σ "A" * a + σ "B" * b.
Proof.
  intros Ha Hb Hfeas. apply gcd_ip2_feasible in Hfeas as (_ & _ & Hrange).
  apply Z.divide_pos_le; [lia|].
  apply Z.divide_add_r; apply Z.divide_mul_r.
  - apply Z.gcd_divide_l.
  - apply Z.gcd_divide_r.
Qed.

Lemma gcd_le_min (a b : Z) : 1 <= a → 1 <= b → 1 <= Z.gcd a b <= Z.min a b.
Proof.
  intros Ha Hb. pose proof (gcd_nonzero_pos a b ltac:(lia)).
  pose proof (Z.divide_pos_le (Z.gcd a b) a ltac:(lia) (Z.gcd_divide_l a b)).
  pose proof (Z.divide_pos_le (Z.gcd a b) b ltac:(lia) (Z.gcd_divide_r a b)).
  lia.
Qed.

Lemma gcd_ip2_optimal_iff (a b : Z) (σ : pyo.solution) :
  1 <= a → 1 <= b →
  (pyo.optimal (gcd_ip2_model a b) σ ↔
   pyo.feasible (gcd_ip2_model a b) σ = true ∧ σ "A" * a + σ "B" * b = Z.gcd a b).
Proof.
  intros Ha Hb.
  pose proof (gcd_le_min a b Ha Hb) as Hg.
  split.
  - intros [Hfeas Hbest]. split; [assumption|].
    pose proof (gcd_ip2_floor a b σ Ha Hb Hfeas) as Hfloor.
    destruct (bezout_in_bounds a b Ha Hb) as (u & v & Huv & Hu & Hv).
    specialize (Hbest (solution_of u v 0)).
    rewrite !gcd_ip2_objective in Hbest.
    change (solution_of u v 0 "A") with u in Hbest.
    change (solution_of u v 0 "B") with v in Hbest.
    cbn [pyo.no_worse pyo.objective gcd_ip2_model snd] in Hbest.
    assert (σ "A" * a + σ "B" * b <= u * a + v * b); [|lia].
    apply Hbest. apply gcd_ip2_feasible.
    change (solution_of u v 0 "A") with u.
    change (solution_of u v 0 "B") with v. lia.
  - intros [Hfeas Hval]. split; [assumption|].
    intros σ' Hfeas'. rewrite !gcd_ip2_objective.
    cbn [pyo.no_worse pyo.objective gcd_ip2_model snd].
    pose proof (gcd_ip2_floor a b σ' Ha Hb Hfeas'). lia.
Qed.

(** X11. The programme of [gcd_ip2] is feasible for positive [a], [b]:
    coefficients of Bezout's identity exist within the bounds [-b..b] and
    [-a..a], and the upper limit [min(a, b)] of the constraint is never
    below the greatest common divisor.  An optimal solution exists, and at
    every optimal solution the reported value [A*a + B*b] is the greatest
    common divisor. *)
Theorem gcd_ip2_optimum (a b : Z) :
  1 <= a → 1 <= b →
  (∃ σ : pyo.solution, pyo.optimal (gcd_ip2_model a b) σ) ∧
  (∀ σ : pyo.solution,
      pyo.optimal (gcd_ip2_model a b) σ →
      pyo.objective_value (gcd_ip2_model a b) σ = Z.gcd a b).
Proof.
  intros Ha Hb. split.
  - destruct (bezout_in_bounds a b Ha Hb) as (u & v & Huv & Hu & Hv).
    pose proof (gcd_le_min a b Ha Hb) as Hg.
    exists (solution_of u v 0).
    apply gcd_ip2_optimal_iff; [assumption..|].
    rewrite gcd_ip2_feasible.
    change (solution_of u v 0 "A") with u.
    change (solution_of u v 0 "B") with v. lia.
  - intros σ Hopt. rewrite gcd_ip2_objective.
    apply gcd_ip2_optimal_iff in Hopt as [_ Hval]; assumption.
Qed.

Lemma gcd_ip2_optimum_9_27 :
  (∃ σ : pyo.solution, pyo.optimal (gcd_ip2_model 9 27) σ) ∧
  (∀ σ : pyo.solution,
      pyo.optimal (gcd_ip2_model 9 27) σ →
      pyo.objective_value (gcd_ip2_model 9 27) σ = Z.gcd 9 27).
Proof. apply (gcd_ip2_optimum 9 27); lia. Defined.

(** X12. The bounds of [gcd_ip2] do not make the optimum unique: for all
    positive [a], [b] the programme has two optimal solutions with
    different values of [A]. *)
Theorem gcd_ip2_optimum_not_unique (a b : Z) :
  1 <= a → 1 <= b →
  ∃ σ1 σ2 : pyo.solution,
    pyo.optimal (gcd_ip2_model a b) σ1 ∧
    pyo.optimal (gcd_ip2_model a b) σ2 ∧
    σ1 "A" ≠ σ2 "A".
Proof.
  intros Ha Hb.
  destruct (bezout_in_bounds a b Ha Hb) as (u & v & Huv & Hu & Hv).
  destruct (coprime_parts a b Ha Hb) as (a' & b' & Ha' & Hb' & Ha1 & Hb1 & _).
  pose proof (gcd_le_min a b Ha Hb) as Hg.
  assert (Hopt : ∀ x y : Z,
             - b <= x <= b → - a <= y <= a → x * a + y * b = Z.gcd a b →
             pyo.optimal (gcd_ip2_model a b) (solution_of x y 0)).
  { intros x y Hx Hy Hxy. apply gcd_ip2_optimal_iff; [assumption..|].
    rewrite gcd_ip2_feasible.
    change (solution_of x y 0 "A") with x.
    change (solution_of x y 0 "B") with y. lia. }
  destruct (Z_le_gt_dec v 0) as [Hv0|Hv1];
    [|destruct (Z_le_gt_dec 2 (Z.gcd a b)) as [Hg2|Hg1]].
  - exists (solution_of u v 0), (solution_of (u - b') (v + a') 0).
    change (solution_of u v 0 "A") with u.
    change (solution_of (u - b') (v + a') 0 "A") with (u - b').
    split; [apply Hopt; lia|]. split; [apply Hopt; nia|]. lia.
  - exists (solution_of u v 0), (solution_of (u - b') (v + a') 0).
    change (solution_of u v 0 "A") with u.
    change (solution_of (u - b') (v + a') 0 "A") with (u - b').
    split; [apply Hopt; lia|]. split; [apply Hopt; nia|]. lia.
  - assert (v = 1) by lia. assert (Z.gcd a b = 1) as Hone by lia.
    assert (u = 0 ∧ b = 1) as [-> ->] by nia.
    exists (solution_of 0 1 0), (solution_of 1 (1 - a) 0).
    change (solution_of 0 1 0 "A") with 0.
    change (solution_of 1 (1 - a) 0 "A") with 1.
    split; [apply Hopt; lia|]. split; [apply Hopt; lia|]. lia.
Qed.

Lemma gcd_ip2_optimum_not_unique_9_27 :
  ∃ σ1 σ2 : pyo.solution,
    pyo.optimal (gcd_ip2_model 9 27) σ1 ∧
    pyo.optimal (gcd_ip2_model 9 27) σ2 ∧
    σ1 "A" ≠ σ2 "A".
Proof. apply (gcd_ip2_optimum_not_unique 9 27); lia. Defined.

(** X13. Outside the domain of the notebook, when [a] or [b] is below
    one, the programmes of [gcd_ip0] and [gcd_ip2] have no feasible solution
    at all: their bounds [1..a], [1..b], and the range [1..min(a, b)], are
    empty. *)
Theorem programmes_infeasible_outside_domain (a b : Z) (σ : pyo.solution) :
  a < 1 ∨ b < 1 →
  pyo.feasible (gcd_ip0_model a b) σ = false ∧
  pyo.feasible (gcd_ip2_model a b) σ = false.
Proof.
  intros Hab. split.
  - destruct (pyo.feasible (gcd_ip0_model a b) σ) eqn:Hfeas; [|reflexivity].
    apply gcd_ip0_feasible in Hfeas. lia.
  - destruct (pyo.feasible (gcd_ip2_model a b) σ) eqn:Hfeas; [|reflexivity].
    apply gcd_ip2_feasible in Hfeas. lia.
Qed.

Lemma programmes_infeasible_outside_domain_0_5 :
  pyo.feasible (gcd_ip0_model 0 5) (solution_of 1 1 0) = false ∧
  pyo.feasible (gcd_ip2_model 0 5) (solution_of 1 1 0) = false.
Proof. apply (programmes_infeasible_outside_domain 0 5 (solution_of 1 1 0)). lia. Defined.

(** The solutions which the notebook's run of [gcd_ip2(9, 27)] and the
    plain identity [1*9 + 0*27 = 9] give are both optimal. *)
Example gcd_ip2_9_27_optimal :
  pyo.optimal (gcd_ip2_model 9 27) gcd_ip2_9_27 ∧
  pyo.optimal (gcd_ip2_model 9 27) (solution_of 1 0 0).
Proof.
  split; (apply gcd_ip2_optimal_iff; [lia|lia|]); split; reflexivity.
Qed.

(** ** The programmes under the verifier *)

Lemma py_eq_int_float (g : Z) : py_eq (PyInt g) (PyFloat g 0) = true.
Proof. unfold py_eq, dyadic_eqb. apply Z.eqb_refl. Qed.

(** X14. The verifier accepts the optimum of each programme: when, for
    positive [a], [b], the candidate's result reports under ['gcd'] the
    float equal to [a/A] at an optimal solution of the programme of
    [gcd_ip0], or to [A*a + B*b] at an optimal solution of the programme of
    [gcd_ip1] or of [gcd_ip2], the test of the pair passes. *)
Theorem optimal_solution_passes_test
    (a b : Z) (gcd_function : candidate) (solver : pyval)
    (d : gmap string pyval) (σ : pyo.solution) (v : Z) :
  1 <= a → 1 <= b →
  call_candidate gcd_function a b solver = Return (PyDict d) →
  d !! "gcd" = Some (PyFloat v 0) →
  (pyo.optimal (gcd_ip0_model a b) σ ∧ v = a / σ "A") ∨
  (pyo.optimal (gcd_ip1_model a b) σ ∧ v = σ "A" * a + σ "B" * b) ∨
  (pyo.optimal (gcd_ip2_model a b) σ ∧ v = σ "A" * a + σ "B" * b) →
  test_gcd_function a b gcd_function solver = Return ().
Proof.
  intros Ha Hb Hcall Hgcd Hopt.
  apply (test_values_agree a b gcd_function solver d (PyFloat v 0) Hcall Hgcd).
  assert (v = gcd_while a b) as ->; [|apply py_eq_int_float].
  rewrite gcd_while_Zgcd by lia.
  pose proof (gcd_nonzero_pos a b ltac:(lia)) as Hg.
  destruct Hopt as [[Hopt ->]|[[Hopt ->]|[Hopt ->]]].
  - apply gcd_ip0_optimal_iff in Hopt as [HA _]; [|assumption..].
    rewrite <- HA at 1. rewrite Z.mul_comm. apply Z.div_mul. nia.
  - apply gcd_ip1_optimal_iff in Hopt as [_ Hval]; assumption.
  - apply gcd_ip2_optimal_iff in Hopt as [_ Hval]; assumption.
Qed.

Lemma optimal_solution_passes_test_9_27 :
  test_gcd_function 9 27 recorded_gcd_ip2 (PyStr "cbc") = Return ().
Proof.
  apply (optimal_solution_passes_test 9 27 recorded_gcd_ip2 (PyStr "cbc")
           gcd_ip2_9_27_result gcd_ip2_9_27 9).
  - lia.
  - lia.
  - reflexivity.
  - vm_compute. reflexivity.
  - right. right. split; [|reflexivity].
    apply gcd_ip2_optimal_iff; [lia|lia|]. split; reflexivity.
Defined.

(** The run which the notebook records for [gcd_ip1(2, 2)] ends this
    way. *)
Lemma test_values_differ_no_message_gcd_ip1 :
  test_gcd_function 2 2 recorded_gcd_ip1 (PyStr "cbc") = Raise (KeyError "termination_message").
Proof.
  apply (test_values_differ_no_message 2 2 recorded_gcd_ip1 (PyStr "cbc")
           gcd_ip1_2_2 (PyFloat 0 0)).
  - reflexivity.
  - vm_compute. reflexivity.
  - vm_compute. reflexivity.
  - vm_compute. reflexivity.
Defined.

(** ** The invariant of the loop *)

(** X16. Every execution of the loop body keeps the greatest common divisor
    of the two variables: in each state the loop reaches, from integers of
    any sign, the two variables have the gcd of the arguments. *)
Theorem loop_keeps_gcd (s0 s : loop_state) :
  rtc loop_step s0 s → Z.gcd s.1 s.2 = Z.gcd s0.1 s0.2.
Proof.
  intros Hreach. induction Hreach as [|s1 s2 s3 [_ ->] _ IH]; [reflexivity|].
  rewrite IH. unfold loop_body. cbn [fst snd]. apply loop_body_gcd.
Qed.

Lemma loop_keeps_gcd_48_18 : Z.gcd (18, 12).1 (18, 12).2 = Z.gcd (48, 18).1 (48, 18).2.
Proof.
  apply (loop_keeps_gcd (48, 18) (18, 12)).
  apply rtc_once. split; reflexivity.
Defined.
